(** * Glulxe [osdepend.c]: the dual-mode random number generator

    A shallow embedding of the random-number part of [osdepend.c]:
    the SplitMix32 seed expansion [mt_seed_random], the xoshiro128**
    step [mt_random], the rotation helper [rotl], the platform macros
    [RAND_SET_SEED] / [RAND_GET] and the two entry points
    [glulx_setrandom] and [glulx_random].

    A [glui32] / [uint32_t] value is a [Z] in [0, 2^32); every place
    where C truncates (addition, multiplication, left shift, conversion
    of a wider value) is written out with [wrap32].  The static array
    [mt_table] is a list updated by index; the static flag
    [rand_use_native] is a [bool]; everything outside the file (the
    clock, the C library generator, the Windows entropy call) is the
    [world] component of the state, reached through the [Host]
    interface. *)

From Stdlib Require Import ZArith Lia Bool List.
From stdpp Require Import base list.

Local Open Scope Z_scope.

(** ** 32-bit unsigned arithmetic *)

Definition wrap32 (x : Z) : Z := x mod 2 ^ 32.

Definition is_u32 (x : Z) : Prop := 0 <= x < 2 ^ 32.

(** ** The host platform

    The functions the macros of [osdepend.c] expand to but which are
    defined by the C library or the operating system. *)

Class Host (W : Type) : Type := {
  (** [time(NULL)] *)
  time : W -> Z;
  (** [srandom(seed)] *)
  srandom : Z -> W -> W;
  (** [random()] *)
  random : W -> Z * W;
  (** [rand_s(&value)]: the value stored, and the world afterwards *)
  rand_s : W -> Z * W
}.

(** The preprocessor configurations of the file. *)
Inductive Build : Type :=
  | OS_STDC
  | OS_UNIX
  | OS_WINDOWS_MSC
  | OS_WINDOWS_OTHER
  | OS_NONE.

(** Builds whose [RAND_GET] is [mt_random]. *)
Definition native_is_xoshiro (b : Build) : bool :=
  match b with
  | OS_UNIX | OS_WINDOWS_MSC => false
  | OS_STDC | OS_WINDOWS_OTHER | OS_NONE => true
  end.

(** ** Program state *)

Record State (W : Type) : Type := mkState {
  mt_table : list Z;
  rand_use_native : bool;
  world : W
}.

Arguments mkState {W} _ _ _.
Arguments mt_table {W} _.
Arguments rand_use_native {W} _.
Arguments world {W} _.

Definition set_mt_table {W} (t : list Z) (st : State W) : State W :=
  mkState t (rand_use_native st) (world st).

Definition set_rand_use_native {W} (f : bool) (st : State W) : State W :=
  mkState (mt_table st) f (world st).

Definition set_world {W} (w : W) (st : State W) : State W :=
  mkState (mt_table st) (rand_use_native st) w.

(** Static storage at process start: [mt_table] is zero-initialised,
    [rand_use_native] is [TRUE]. *)
Definition initial_state {W} (w : W) : State W :=
  mkState [0; 0; 0; 0] true w.

(** The states the program can be in: four words, each 32 bits wide. *)
Definition wf_table (t : list Z) : Prop :=
  length t = 4%nat /\ Forall is_u32 t.

Definition wf_state {W} (st : State W) : Prop := wf_table (mt_table st).

(** ** [mt_seed_random] *)

(** One turn of the loop body, for slot [ix]: returns the updated
    [seed] and table. *)
Definition mt_seed_body (ix : nat) (seed : Z) (t : list Z) : Z * list Z :=
  let seed := wrap32 (seed + 0x9E3779B9) in
  let s := seed in
  let s := Z.lxor s (Z.shiftr s 15) in
  let s := wrap32 (s * 0x85EBCA6B) in
  let s := Z.lxor s (Z.shiftr s 13) in
  let s := wrap32 (s * 0xC2B2AE35) in
  let s := Z.lxor s (Z.shiftr s 16) in
  (seed, <[ix := s]> t).

(** [for (ix = ...; ix < 4; ix++)], with [n] turns left to run. *)
Fixpoint mt_seed_loop (n : nat) (ix : nat) (seed : Z) (t : list Z) : list Z :=
  match n with
  | O => t
  | S n' =>
      let '(seed', t') := mt_seed_body ix seed t in
      mt_seed_loop n' (S ix) seed' t'
  end.

Definition mt_seed_random {W} (seed : Z) (st : State W) : State W :=
  set_mt_table (mt_seed_loop 4 0 seed (mt_table st)) st.

(** ** [rotl] and [mt_random] *)

Definition rotl (x : Z) (k : Z) : Z :=
  Z.lor (wrap32 (Z.shiftl x k)) (Z.shiftr x (32 - k)).

Definition mt_random {W} (st : State W) : Z * State W :=
  let t0 := mt_table st in
  let result := wrap32 (rotl (wrap32 (t0 !!! 1%nat * 5)) 7 * 9) in
  let t := wrap32 (Z.shiftl (t0 !!! 1%nat) 9) in
  let t1 := <[2%nat := Z.lxor (t0 !!! 2%nat) (t0 !!! 0%nat)]> t0 in
  let t2 := <[3%nat := Z.lxor (t1 !!! 3%nat) (t1 !!! 1%nat)]> t1 in
  let t3 := <[1%nat := Z.lxor (t2 !!! 1%nat) (t2 !!! 2%nat)]> t2 in
  let t4 := <[0%nat := Z.lxor (t3 !!! 0%nat) (t3 !!! 3%nat)]> t3 in
  let t5 := <[2%nat := Z.lxor (t4 !!! 2%nat) t]> t4 in
  let t6 := <[3%nat := rotl (t5 !!! 3%nat) 11]> t5 in
  (result, set_mt_table t6 st).

(** ** The platform macros and the entry points *)

Section Entry.
Context {W : Type} `{HW : Host W}.

(** Visual C++: [rand_s] has no seed, [msc_srandom] does nothing. *)
Definition msc_srandom (st : State W) : State W := st.

(** Visual C++: [rand_s] stores into a [glui32] variable, which is
    returned. *)
Definition msc_random (st : State W) : Z * State W :=
  let '(value, w) := rand_s (world st) in (wrap32 value, set_world w st).

(** [RAND_SET_SEED()].  The argument of [mt_seed_random] is a
    [glui32] and that of [srandom] an [unsigned int]: the clock value
    is truncated. *)
Definition RAND_SET_SEED (b : Build) (st : State W) : State W :=
  match b with
  | OS_UNIX =>
      set_world (srandom (wrap32 (time (world st))) (world st)) st
  | OS_WINDOWS_MSC => msc_srandom st
  | OS_STDC | OS_WINDOWS_OTHER | OS_NONE =>
      mt_seed_random (wrap32 (time (world st))) st
  end.

(** [RAND_GET()], with the type the macro's expression has in C. *)
Definition RAND_GET (b : Build) (st : State W) : Z * State W :=
  match b with
  | OS_UNIX =>
      let '(v, w) := random (world st) in (v, set_world w st)
  | OS_WINDOWS_MSC => msc_random st
  | OS_STDC | OS_WINDOWS_OTHER | OS_NONE => mt_random st
  end.

Definition glulx_setrandom (b : Build) (seed : Z) (st : State W) : State W :=
  if seed =? 0 then
    RAND_SET_SEED b (set_rand_use_native true st)
  else
    mt_seed_random seed (set_rand_use_native false st).

(** The value returned is converted to [glui32]. *)
Definition glulx_random (b : Build) (st : State W) : Z * State W :=
  if rand_use_native st then
    let '(v, st') := RAND_GET b st in (wrap32 v, st')
  else
    mt_random st.

(** [n] successive calls of [glulx_random]: the values returned, in
    order, and the state afterwards. *)
Fixpoint glulx_random_n (b : Build) (n : nat) (st : State W)
  : list Z * State W :=
  match n with
  | O => ([], st)
  | S n' =>
      let '(v, st') := glulx_random b st in
      let '(vs, st'') := glulx_random_n b n' st' in
      (v :: vs, st'')
  end.

End Entry.

(** [n] successive calls of [mt_random]. *)
Fixpoint mt_random_n {W} (n : nat) (st : State W) : list Z * State W :=
  match n with
  | O => ([], st)
  | S n' =>
      let '(v, st') := mt_random st in
      let '(vs, st'') := mt_random_n n' st' in
      (v :: vs, st'')
  end.

(** ** The algorithms as the specification words them

    Independent definitions on plain values (no array, no state
    record), to which the embedded code is compared. *)

(** The SplitMix32 mix of one accumulator value. *)
Definition splitmix32_mix (acc : Z) : Z :=
  let s := acc in
  let s := Z.lxor s (Z.shiftr s 15) in
  let s := wrap32 (s * 0x85EBCA6B) in
  let s := Z.lxor s (Z.shiftr s 13) in
  let s := wrap32 (s * 0xC2B2AE35) in
  let s := Z.lxor s (Z.shiftr s 16) in
  s.

(** The slots produced from a running accumulator, first slot first. *)
Fixpoint SeedExpander_slots (n : nat) (acc : Z) : list Z :=
  match n with
  | O => []
  | S n' =>
      let acc' := wrap32 (acc + 0x9E3779B9) in
      splitmix32_mix acc' :: SeedExpander_slots n' acc'
  end.

Definition SeedExpander (seed : Z) : list Z := SeedExpander_slots 4 seed.

(** One xoshiro128** step on the four slots. *)
Definition CoreGenerator (s : Z * Z * Z * Z) : Z * (Z * Z * Z * Z) :=
  let '(s0, s1, s2, s3) := s in
  let result := wrap32 (rotl (wrap32 (s1 * 5)) 7 * 9) in
  let t := wrap32 (Z.shiftl s1 9) in
  let s2 := Z.lxor s2 s0 in
  let s3 := Z.lxor s3 s1 in
  let s1 := Z.lxor s1 s2 in
  let s0 := Z.lxor s0 s3 in
  let s2 := Z.lxor s2 t in
  let s3 := rotl s3 11 in
  (result, (s0, s1, s2, s3)).

Definition slots_of (t : list Z) : Z * Z * Z * Z :=
  (t !!! 0%nat, t !!! 1%nat, t !!! 2%nat, t !!! 3%nat).

Definition table_of (s : Z * Z * Z * Z) : list Z :=
  let '(s0, s1, s2, s3) := s in [s0; s1; s2; s3].

(** The first [n] outputs of the core generator from given slots, and
    the slots reached. *)
Fixpoint CoreGenerator_n (n : nat) (s : Z * Z * Z * Z)
  : list Z * (Z * Z * Z * Z) :=
  match n with
  | O => ([], s)
  | S n' =>
      let '(v, s') := CoreGenerator s in
      let '(vs, s'') := CoreGenerator_n n' s' in
      (v :: vs, s'')
  end.

(** The deterministic-mode output sequence of a seed. *)
Definition deterministic_outputs (seed : Z) (n : nat) : list Z :=
  fst (CoreGenerator_n n (slots_of (SeedExpander seed))).

(** ** A concrete host

    A small host on which the model can be run: the world is one
    number, read as the clock and used as the state of a linear
    congruential [random]. *)

#[local] Instance demo_host : Host Z := {
  time w := w;
  srandom seed _ := seed;
  random w :=
    let w' := (w * 1103515245 + 12345) mod 2 ^ 31 in (w', w');
  rand_s w :=
    let w' := (w * 1664525 + 1013904223) mod 2 ^ 32 in (w', w')
}.

(** ** Sequences of calls

    A client of the file calls the two entry points in some order. *)

Inductive Call : Type :=
  | call_setrandom (seed : Z)
  | call_random.

Definition is_call_random (c : Call) : bool :=
  match c with
  | call_random => true
  | call_setrandom _ => false
  end.


Section Calls.
Context {W : Type} `{HW : Host W}.

(** The calls [cs] made in order from the state [st]: the values the
    [glulx_random] calls return, in order, and the state afterwards. *)
Fixpoint run_calls (b : Build) (cs : list Call) (st : State W)
  : list Z * State W :=
  match cs with
  | [] => ([], st)
  | call_setrandom seed :: cs' => run_calls b cs' (glulx_setrandom b seed st)
  | call_random :: cs' =>
      let '(v, st') := glulx_random b st in
      let '(vs, st'') := run_calls b cs' st' in
      (v :: vs, st'')
  end.

End Calls.

(** * Properties *)

(** ** Ranges of the 32-bit operations *)

Lemma wrap32_u32 (x : Z) : is_u32 (wrap32 x).
Proof. unfold is_u32, wrap32. apply Z.mod_pos_bound. lia. Qed.

Lemma wrap32_small (x : Z) : is_u32 x -> wrap32 x = x.
Proof. unfold is_u32, wrap32. intros H. apply Z.mod_small. exact H. Qed.

Lemma u32_high_bits (x : Z) (i : Z) :
  is_u32 x -> 32 <= i -> Z.testbit x i = false.
Proof.
  intros Hx Hi. rewrite <- (wrap32_small x Hx). unfold wrap32.
  apply Z.mod_pow2_bits_high. lia.
Qed.

Lemma u32_of_bits (x : Z) :
  0 <= x -> (forall i, 32 <= i -> Z.testbit x i = false) -> is_u32 x.
Proof.
  intros Hx Hb.
  assert (E : x mod 2 ^ 32 = x).
  { apply Z.bits_inj'. intros i Hi.
    destruct (Z.lt_ge_cases i 32) as [Hlt | Hge].
    - apply Z.mod_pow2_bits_low. lia.
    - rewrite Z.mod_pow2_bits_high by lia. symmetry. apply Hb. exact Hge. }
  rewrite <- E. apply wrap32_u32.
Qed.

Lemma lxor_u32 (a b : Z) : is_u32 a -> is_u32 b -> is_u32 (Z.lxor a b).
Proof.
  intros Ha Hb. apply u32_of_bits.
  - apply Z.lxor_nonneg. unfold is_u32 in *. lia.
  - intros i Hi. rewrite Z.lxor_spec.
    rewrite (u32_high_bits a i Ha Hi), (u32_high_bits b i Hb Hi). reflexivity.
Qed.

Lemma lor_u32 (a b : Z) : is_u32 a -> is_u32 b -> is_u32 (Z.lor a b).
Proof.
  intros Ha Hb. apply u32_of_bits.
  - apply Z.lor_nonneg. unfold is_u32 in *. lia.
  - intros i Hi. rewrite Z.lor_spec.
    rewrite (u32_high_bits a i Ha Hi), (u32_high_bits b i Hb Hi). reflexivity.
Qed.

Lemma shiftr_u32 (a k : Z) : is_u32 a -> 0 <= k -> is_u32 (Z.shiftr a k).
Proof.
  intros Ha Hk. apply u32_of_bits.
  - apply Z.shiftr_nonneg. unfold is_u32 in Ha. lia.
  - intros i Hi. rewrite Z.shiftr_spec by lia.
    apply (u32_high_bits a); [exact Ha | lia].
Qed.

Lemma rotl_u32 (x k : Z) : is_u32 x -> k <= 32 -> is_u32 (rotl x k).
Proof.
  intros Hx Hk. unfold rotl. apply lor_u32.
  - apply wrap32_u32.
  - apply shiftr_u32; [exact Hx | lia].
Qed.

Lemma splitmix32_mix_u32 (acc : Z) : is_u32 (splitmix32_mix acc).
Proof.
  unfold splitmix32_mix. cbv zeta.
  apply lxor_u32; [| apply shiftr_u32; [| lia]]; apply wrap32_u32.
Qed.

Create HintDb u32.

#[local] Hint Resolve wrap32_u32 lxor_u32 lor_u32 shiftr_u32 rotl_u32
  splitmix32_mix_u32 : u32.

(** ** Tables of four words *)

Lemma wf_table_inv (t : list Z) :
  wf_table t ->
  exists s0 s1 s2 s3,
    t = [s0; s1; s2; s3] /\ is_u32 s0 /\ is_u32 s1 /\ is_u32 s2 /\ is_u32 s3.
Proof.
  intros [Hlen Hall].
  destruct t as [| s0 [| s1 [| s2 [| s3 [| s4 t]]]]]; try discriminate.
  exists s0, s1, s2, s3.
  inversion Hall as [| ? ? H0 Hall1]; subst.
  inversion Hall1 as [| ? ? H1 Hall2]; subst.
  inversion Hall2 as [| ? ? H2 Hall3]; subst.
  inversion Hall3 as [| ? ? H3 _]; subst.
  split; [reflexivity | auto].
Qed.

Lemma wf_table_intro (s0 s1 s2 s3 : Z) :
  is_u32 s0 -> is_u32 s1 -> is_u32 s2 -> is_u32 s3 ->
  wf_table [s0; s1; s2; s3].
Proof.
  intros H0 H1 H2 H3. split; [reflexivity |].
  repeat (apply Forall_cons; split; [assumption |]). apply Forall_nil_2.
Qed.

Lemma table_of_slots_of (t : list Z) :
  length t = 4%nat -> table_of (slots_of t) = t.
Proof.
  intros Hlen.
  destruct t as [| s0 [| s1 [| s2 [| s3 [| s4 t]]]]]; try discriminate.
  reflexivity.
Qed.

Lemma wf_initial_state {W} (w : W) : wf_state (initial_state w).
Proof.
  apply wf_table_intro; unfold is_u32; lia.
Qed.

(** ** The core step against its specification *)

Lemma CoreGenerator_u32 (s : Z * Z * Z * Z) :
  wf_table (table_of s) ->
  is_u32 (fst (CoreGenerator s)) /\ wf_table (table_of (snd (CoreGenerator s))).
Proof.
  destruct s as [[[s0 s1] s2] s3]. intros Hwf.
  apply wf_table_inv in Hwf.
  destruct Hwf as (a0 & a1 & a2 & a3 & E & H0 & H1 & H2 & H3).
  injection E as -> -> -> ->.
  split; [apply wrap32_u32 |].
  cbn. apply wf_table_intro; auto 10 with u32.
  apply rotl_u32; [auto with u32 | lia].
Qed.

Lemma mt_random_slots {W} (st : State W) :
  length (mt_table st) = 4%nat ->
  mt_random st =
    (fst (CoreGenerator (slots_of (mt_table st))),
     set_mt_table (table_of (snd (CoreGenerator (slots_of (mt_table st))))) st).
Proof.
  intros Hlen. destruct st as [t f w]. cbn [mt_table] in *.
  destruct t as [| s0 [| s1 [| s2 [| s3 [| s4 t]]]]]; try discriminate.
  reflexivity.
Qed.

Lemma mt_random_wf {W} (st : State W) :
  wf_state st -> wf_state (snd (mt_random st)).
Proof.
  intros Hwf. rewrite mt_random_slots by apply Hwf.
  unfold wf_state. cbn [snd mt_table set_mt_table].
  apply CoreGenerator_u32. rewrite table_of_slots_of by apply Hwf. exact Hwf.
Qed.

Lemma mt_random_out_u32 {W} (st : State W) : is_u32 (fst (mt_random st)).
Proof. apply wrap32_u32. Qed.

Lemma mt_random_n_slots {W} (n : nat) (st : State W) :
  length (mt_table st) = 4%nat ->
  mt_random_n n st =
    (fst (CoreGenerator_n n (slots_of (mt_table st))),
     set_mt_table
       (table_of (snd (CoreGenerator_n n (slots_of (mt_table st))))) st).
Proof.
  revert st. induction n as [| n IH]; intros st Hlen.
  - cbn [mt_random_n CoreGenerator_n fst snd].
    rewrite table_of_slots_of by exact Hlen. destruct st; reflexivity.
  - cbn [mt_random_n CoreGenerator_n].
    rewrite (mt_random_slots st Hlen).
    destruct (CoreGenerator (slots_of (mt_table st))) as [v s'] eqn:Ecg.
    cbn [fst snd].
    rewrite IH.
    + cbn [mt_table set_mt_table].
      destruct s' as [[[a0 a1] a2] a3]. cbn [table_of slots_of].
      change (slots_of [a0; a1; a2; a3]) with (a0, a1, a2, a3).
      destruct (CoreGenerator_n n (a0, a1, a2, a3)) as [vs s''].
      reflexivity.
    + destruct s' as [[[a0 a1] a2] a3]. reflexivity.
Qed.

(** ** The seed loop against its specification *)

Lemma mt_seed_body_eq (ix : nat) (seed : Z) (t : list Z) :
  mt_seed_body ix seed t =
    (wrap32 (seed + 0x9E3779B9),
     <[ix := splitmix32_mix (wrap32 (seed + 0x9E3779B9))]> t).
Proof. reflexivity. Qed.

(** Loop invariant: [n] turns starting at slot [ix] overwrite exactly
    the slots [ix .. ix+n-1], in increasing order, and nothing else. *)
Lemma mt_seed_loop_spec (n ix : nat) (seed : Z) (t : list Z) :
  (ix + n <= length t)%nat ->
  mt_seed_loop n ix seed t =
    take ix t ++ SeedExpander_slots n seed ++ drop (ix + n) t.
Proof.
  revert ix seed t. induction n as [| n IH]; intros ix seed t Hlen.
  - cbn [mt_seed_loop SeedExpander_slots app].
    rewrite Nat.add_0_r. symmetry. apply take_drop.
  - cbn [mt_seed_loop SeedExpander_slots]. rewrite mt_seed_body_eq.
    set (seed' := wrap32 (seed + 0x9E3779B9)).
    set (v := splitmix32_mix seed').
    rewrite IH by (rewrite length_insert; lia).
    rewrite (take_S_r (<[ix := v]> t) ix v)
      by (apply list_lookup_insert_eq; lia).
    rewrite take_insert_ge by lia.
    rewrite drop_insert_lt by lia.
    rewrite <- app_assoc. cbn [app].
    replace (S ix + n)%nat with (ix + S n)%nat by lia.
    reflexivity.
Qed.

Lemma length_SeedExpander_slots (n : nat) (acc : Z) :
  length (SeedExpander_slots n acc) = n.
Proof.
  revert acc. induction n as [| n IH]; intros acc; cbn; [| rewrite IH];
    reflexivity.
Qed.

Lemma SeedExpander_slots_u32 (n : nat) (acc : Z) :
  Forall is_u32 (SeedExpander_slots n acc).
Proof.
  revert acc. induction n as [| n IH]; intros acc; cbn [SeedExpander_slots].
  - apply Forall_nil_2.
  - apply Forall_cons. split; [apply splitmix32_mix_u32 | apply IH].
Qed.

Lemma SeedExpander_wf (seed : Z) : wf_table (SeedExpander seed).
Proof.
  split.
  - apply length_SeedExpander_slots.
  - apply SeedExpander_slots_u32.
Qed.

Lemma mt_seed_random_table {W} (seed : Z) (st : State W) :
  length (mt_table st) = 4%nat ->
  mt_seed_random seed st = set_mt_table (SeedExpander seed) st.
Proof.
  intros Hlen. unfold mt_seed_random. f_equal.
  rewrite mt_seed_loop_spec by (rewrite Hlen; reflexivity).
  rewrite take_0. cbn [app].
  rewrite drop_ge by (rewrite Hlen; cbn; lia).
  apply app_nil_r.
Qed.

Lemma mt_seed_random_wf {W} (seed : Z) (st : State W) :
  wf_state st -> wf_state (mt_seed_random seed st).
Proof.
  intros Hwf. rewrite mt_seed_random_table by apply Hwf.
  apply SeedExpander_wf.
Qed.

Lemma wrap32_add_l (a b : Z) : wrap32 (wrap32 a + b) = wrap32 (a + b).
Proof. unfold wrap32. apply Z.add_mod_idemp_l. lia. Qed.

Lemma SeedExpander_closed (seed : Z) :
  SeedExpander seed =
    [ splitmix32_mix (wrap32 (seed + 1 * 0x9E3779B9));
      splitmix32_mix (wrap32 (seed + 2 * 0x9E3779B9));
      splitmix32_mix (wrap32 (seed + 3 * 0x9E3779B9));
      splitmix32_mix (wrap32 (seed + 4 * 0x9E3779B9)) ].
Proof.
  unfold SeedExpander. cbn [SeedExpander_slots].
  rewrite !wrap32_add_l.
  assert (E : forall a b, a = b ->
            splitmix32_mix (wrap32 a) = splitmix32_mix (wrap32 b))
    by (intros a b ->; reflexivity).
  repeat (apply (f_equal2 cons); [apply E; lia |]). reflexivity.
Qed.

(** ** [rotl] is a rotation *)

Lemma rotl_testbit (x k i : Z) :
  is_u32 x -> 0 < k < 32 -> 0 <= i < 32 ->
  Z.testbit (rotl x k) i = Z.testbit x ((i - k) mod 32).
Proof.
  intros Hx Hk Hi. unfold rotl, wrap32.
  rewrite Z.lor_spec, Z.mod_pow2_bits_low by lia.
  rewrite Z.shiftl_spec, Z.shiftr_spec by lia.
  destruct (Z.lt_ge_cases i k) as [Hlt | Hge].
  - rewrite (Z.testbit_neg_r x (i - k)) by lia.
    replace ((i - k) mod 32) with (i + (32 - k)).
    + reflexivity.
    + apply (Z.mod_unique_pos _ _ (-1)); lia.
  - rewrite (u32_high_bits x (i + (32 - k)) Hx) by lia.
    rewrite Z.mod_small by lia. apply orb_false_r.
Qed.

(** ** No step of the algorithms maps a nonzero word to zero *)

Lemma xorshift_zero (x k : Z) :
  0 <= x -> 0 < k -> Z.lxor x (Z.shiftr x k) = 0 -> x = 0.
Proof.
  intros Hx Hk E. apply Z.lxor_eq in E.
  rewrite Z.shiftr_div_pow2 in E by lia.
  assert (Hp : 2 <= 2 ^ k).
  { change 2 with (2 ^ 1) at 1. apply Z.pow_le_mono_r; lia. }
  destruct (Z.eq_dec x 0) as [| Hne]; [assumption | exfalso].
  assert (Hlt : x / 2 ^ k < x) by (apply Z.div_lt; lia).
  lia.
Qed.

Lemma unit_mul_zero (c cinv s : Z) :
  wrap32 (c * cinv) = 1 -> is_u32 s -> wrap32 (s * c) = 0 -> s = 0.
Proof.
  unfold wrap32. intros Hinv Hs E.
  rewrite <- (Z.mod_small s (2 ^ 32)) by exact Hs.
  replace s with (s * 1) at 1 by lia.
  rewrite <- Hinv, Z.mul_mod_idemp_r by lia.
  rewrite Z.mul_assoc, <- Z.mul_mod_idemp_l, E by lia.
  reflexivity.
Qed.

Lemma splitmix32_mix_zero (acc : Z) :
  is_u32 acc -> splitmix32_mix acc = 0 -> acc = 0.
Proof.
  unfold splitmix32_mix. cbv zeta. intros Hacc E.
  assert (H15 : is_u32 (Z.lxor acc (Z.shiftr acc 15))).
  { apply lxor_u32; [| apply shiftr_u32]; auto; lia. }
  set (a := Z.lxor acc (Z.shiftr acc 15)) in *.
  assert (H13 : is_u32 (Z.lxor (wrap32 (a * 0x85EBCA6B))
                          (Z.shiftr (wrap32 (a * 0x85EBCA6B)) 13))).
  { apply lxor_u32; [| apply shiftr_u32]; auto with u32; lia. }
  set (b := Z.lxor (wrap32 (a * 0x85EBCA6B)) _) in *.
  apply xorshift_zero in E; [| apply wrap32_u32 | lia].
  apply (unit_mul_zero _ 2127672349) in E; [| reflexivity | exact H13].
  subst b. apply xorshift_zero in E; [| apply wrap32_u32 | lia].
  apply (unit_mul_zero _ 2781581891) in E; [| reflexivity | exact H15].
  subst a. apply xorshift_zero in E; [exact E | apply Hacc | lia].
Qed.

Lemma rotl_zero (x k : Z) :
  is_u32 x -> 0 <= k <= 32 -> rotl x k = 0 -> x = 0.
Proof.
  unfold rotl, wrap32, is_u32. intros Hx Hk E.
  apply Z.lor_eq_0_iff in E. destruct E as [El Er].
  rewrite Z.shiftl_mul_pow2 in El by lia.
  rewrite Z.shiftr_div_pow2 in Er by lia.
  assert (Hpk : 0 < 2 ^ k) by (apply Z.pow_pos_nonneg; lia).
  assert (Hpr : 0 < 2 ^ (32 - k)) by (apply Z.pow_pos_nonneg; lia).
  assert (Hsplit : 2 ^ (32 - k) * 2 ^ k = 2 ^ 32).
  { rewrite <- Z.pow_add_r by lia. f_equal. lia. }
  assert (Hsmall : x < 2 ^ (32 - k)).
  { apply Z.div_small_iff in Er; lia. }
  rewrite Z.mod_small in El by nia.
  nia.
Qed.

Lemma shl_xor_zero (x : Z) :
  is_u32 x -> Z.lxor x (wrap32 (Z.shiftl x 9)) = 0 -> x = 0.
Proof.
  intros Hx E. apply Z.lxor_eq in E.
  rewrite Z.shiftl_mul_pow2 in E by lia.
  apply (unit_mul_zero 511 4160486911); [reflexivity | exact Hx |].
  unfold wrap32, is_u32 in *.
  replace (x * 511) with (x * 2 ^ 9 + (-1) * x) by lia.
  rewrite <- Z.add_mod_idemp_l, <- E by lia.
  replace (x + -1 * x) with 0 by lia. reflexivity.
Qed.

Lemma CoreGenerator_zero_inv (s : Z * Z * Z * Z) :
  wf_table (table_of s) ->
  snd (CoreGenerator s) = (0, 0, 0, 0) -> s = (0, 0, 0, 0).
Proof.
  destruct s as [[[s0 s1] s2] s3]. intros Hwf E.
  apply wf_table_inv in Hwf.
  destruct Hwf as (a0 & a1 & a2 & a3 & Et & H0 & H1 & H2 & H3).
  injection Et as -> -> -> ->.
  cbn [CoreGenerator snd] in E. injection E as E0 E1 E2 E3.
  apply rotl_zero in E3; [| auto with u32 | lia].
  apply Z.lxor_eq in E3. subst a3.
  rewrite Z.lxor_nilpotent, Z.lxor_0_r in E0. subst a0.
  rewrite Z.lxor_0_r in E1, E2.
  apply Z.lxor_eq in E1. subst a2.
  apply shl_xor_zero in E2; [| exact H1]. subst a1.
  reflexivity.
Qed.

Lemma SeedExpander_nonzero (seed : Z) : SeedExpander seed <> [0; 0; 0; 0].
Proof.
  rewrite SeedExpander_closed. intros E. injection E as E0 E1 _ _.
  apply splitmix32_mix_zero in E0; [| apply wrap32_u32].
  apply splitmix32_mix_zero in E1; [| apply wrap32_u32].
  unfold wrap32 in E0, E1. revert E0 E1.
  generalize (Z.div_mod (seed + 1 * 0x9E3779B9) (2 ^ 32)).
  generalize (Z.div_mod (seed + 2 * 0x9E3779B9) (2 ^ 32)).
  lia.
Qed.

Lemma CoreGenerator_n_wf (n : nat) (s : Z * Z * Z * Z) :
  wf_table (table_of s) -> wf_table (table_of (snd (CoreGenerator_n n s))).
Proof.
  revert s. induction n as [| n IH]; intros s Hwf; [exact Hwf |].
  cbn [CoreGenerator_n].
  pose proof (CoreGenerator_u32 s Hwf) as [_ Hwf'].
  destruct (CoreGenerator s) as [v s']. cbn [snd] in Hwf'.
  specialize (IH s' Hwf').
  destruct (CoreGenerator_n n s') as [vs s'']. exact IH.
Qed.

Lemma CoreGenerator_n_nonzero (n : nat) (s : Z * Z * Z * Z) :
  wf_table (table_of s) -> s <> (0, 0, 0, 0) ->
  snd (CoreGenerator_n n s) <> (0, 0, 0, 0).
Proof.
  revert s. induction n as [| n IH]; intros s Hwf Hne; [exact Hne |].
  cbn [CoreGenerator_n].
  pose proof (CoreGenerator_u32 s Hwf) as [_ Hwf'].
  pose proof (CoreGenerator_zero_inv s Hwf) as Hinv.
  destruct (CoreGenerator s) as [v s']. cbn [snd] in Hwf', Hinv.
  assert (Hne' : s' <> (0, 0, 0, 0)) by (intros E; apply Hne, Hinv, E).
  specialize (IH s' Hwf' Hne').
  destruct (CoreGenerator_n n s') as [vs s'']. exact IH.
Qed.

Lemma length_CoreGenerator_n (n : nat) (s : Z * Z * Z * Z) :
  length (fst (CoreGenerator_n n s)) = n.
Proof.
  revert s. induction n as [| n IH]; intros s; [reflexivity |].
  cbn [CoreGenerator_n]. destruct (CoreGenerator s) as [v s'].
  specialize (IH s'). destruct (CoreGenerator_n n s') as [vs s''].
  cbn [fst length] in *. rewrite IH. reflexivity.
Qed.

Lemma mt_random_n_wf {W} (n : nat) (st : State W) :
  wf_state st -> wf_state (snd (mt_random_n n st)).
Proof.
  intros Hwf. rewrite mt_random_n_slots by apply Hwf.
  unfold wf_state. cbn [snd mt_table set_mt_table].
  apply CoreGenerator_n_wf. rewrite table_of_slots_of by apply Hwf. exact Hwf.
Qed.

(** ** Frame and invariant lemmas for the entry points *)

Section EntryFacts.
Context {W : Type} `{HW : Host W}.
Implicit Types (b : Build) (st : State W).

Lemma mt_random_flag st :
  rand_use_native (snd (mt_random st)) = rand_use_native st.
Proof. reflexivity. Qed.

Lemma mt_random_world st : world (snd (mt_random st)) = world st.
Proof. reflexivity. Qed.

Lemma mt_seed_random_flag seed st :
  rand_use_native (mt_seed_random seed st) = rand_use_native st.
Proof. reflexivity. Qed.

Lemma RAND_SET_SEED_flag b st :
  rand_use_native (RAND_SET_SEED b st) = rand_use_native st.
Proof. destruct b; reflexivity. Qed.

Lemma RAND_SET_SEED_wf b st : wf_state st -> wf_state (RAND_SET_SEED b st).
Proof.
  intros Hwf. destruct b; cbn [RAND_SET_SEED];
    try (apply mt_seed_random_wf); exact Hwf.
Qed.

Lemma RAND_GET_flag b st :
  rand_use_native (snd (RAND_GET b st)) = rand_use_native st.
Proof.
  destruct b; cbn [RAND_GET]; try reflexivity.
  - destruct (random (world st)); reflexivity.
  - unfold msc_random. destruct (rand_s (world st)); reflexivity.
Qed.

Lemma RAND_GET_wf b st : wf_state st -> wf_state (snd (RAND_GET b st)).
Proof.
  intros Hwf. destruct b; cbn [RAND_GET]; try (apply mt_random_wf; exact Hwf).
  - destruct (random (world st)); exact Hwf.
  - unfold msc_random. destruct (rand_s (world st)); exact Hwf.
Qed.

Lemma RAND_GET_xoshiro b st :
  native_is_xoshiro b = true -> RAND_GET b st = mt_random st.
Proof. destruct b; intros E; try discriminate E; reflexivity. Qed.

Lemma RAND_GET_platform_table b st :
  native_is_xoshiro b = false ->
  mt_table (snd (RAND_GET b st)) = mt_table st.
Proof.
  destruct b; intros E; try discriminate E; cbn [RAND_GET].
  - destruct (random (world st)); reflexivity.
  - unfold msc_random. destruct (rand_s (world st)); reflexivity.
Qed.

Lemma glulx_random_native b st :
  rand_use_native st = true ->
  glulx_random b st =
    (wrap32 (fst (RAND_GET b st)), snd (RAND_GET b st)).
Proof.
  intros E. unfold glulx_random. rewrite E.
  destruct (RAND_GET b st); reflexivity.
Qed.

Lemma glulx_random_deterministic b st :
  rand_use_native st = false -> glulx_random b st = mt_random st.
Proof. intros E. unfold glulx_random. rewrite E. reflexivity. Qed.

Lemma glulx_random_flag b st :
  rand_use_native (snd (glulx_random b st)) = rand_use_native st.
Proof.
  destruct (rand_use_native st) eqn:E.
  - rewrite glulx_random_native by exact E. cbn [snd].
    rewrite RAND_GET_flag. exact E.
  - rewrite glulx_random_deterministic by exact E.
    rewrite mt_random_flag. exact E.
Qed.

Lemma glulx_random_wf b st : wf_state st -> wf_state (snd (glulx_random b st)).
Proof.
  intros Hwf. destruct (rand_use_native st) eqn:E.
  - rewrite glulx_random_native by exact E. apply RAND_GET_wf, Hwf.
  - rewrite glulx_random_deterministic by exact E. apply mt_random_wf, Hwf.
Qed.

Lemma glulx_random_out_u32 b st : is_u32 (fst (glulx_random b st)).
Proof.
  destruct (rand_use_native st) eqn:E.
  - rewrite glulx_random_native by exact E. apply wrap32_u32.
  - rewrite glulx_random_deterministic by exact E. apply mt_random_out_u32.
Qed.

Lemma glulx_setrandom_zero b st :
  glulx_setrandom b 0 st = RAND_SET_SEED b (set_rand_use_native true st).
Proof. reflexivity. Qed.

Lemma glulx_setrandom_nonzero b seed st :
  length (mt_table st) = 4%nat -> seed <> 0 ->
  glulx_setrandom b seed st = mkState (SeedExpander seed) false (world st).
Proof.
  intros Hlen Hne. unfold glulx_setrandom.
  destruct (Z.eqb_spec seed 0) as [E | _]; [contradiction |].
  rewrite mt_seed_random_table by exact Hlen. reflexivity.
Qed.

Lemma glulx_setrandom_wf b seed st :
  wf_state st -> wf_state (glulx_setrandom b seed st).
Proof.
  intros Hwf. unfold glulx_setrandom. destruct (seed =? 0).
  - apply RAND_SET_SEED_wf. exact Hwf.
  - apply mt_seed_random_wf. exact Hwf.
Qed.

Lemma glulx_random_n_deterministic b n st :
  rand_use_native st = false -> glulx_random_n b n st = mt_random_n n st.
Proof.
  revert st. induction n as [| n IH]; intros st E; [reflexivity |].
  cbn [glulx_random_n mt_random_n].
  rewrite glulx_random_deterministic by exact E.
  pose proof (mt_random_flag st) as Hflag.
  destruct (mt_random st) as [v st']. cbn [snd] in Hflag.
  rewrite IH by (rewrite Hflag; exact E). reflexivity.
Qed.

Lemma glulx_random_n_seeded b seed n st :
  length (mt_table st) = 4%nat -> seed <> 0 ->
  fst (glulx_random_n b n (glulx_setrandom b seed st)) =
    deterministic_outputs seed n.
Proof.
  intros Hlen Hne. rewrite glulx_setrandom_nonzero by assumption.
  rewrite glulx_random_n_deterministic by reflexivity.
  rewrite mt_random_n_slots by apply SeedExpander_wf.
  reflexivity.
Qed.

End EntryFacts.

Lemma take_SeedExpander_slots (k n : nat) (acc : Z) :
  (k <= n)%nat -> take k (SeedExpander_slots n acc) = SeedExpander_slots k acc.
Proof.
  revert n acc. induction k as [| k IH]; intros n acc Hle; [reflexivity |].
  destruct n as [| n]; [lia |].
  cbn [SeedExpander_slots take]. rewrite IH by lia. reflexivity.
Qed.

(** * The claims *)

(** C1.  For every state of four 32-bit words [(s0, s1, s2, s3)], one
    call of [mt_random] returns [rotl (s1 * 5) 7 * 9] with both
    multiplications wrapping at 32 bits, where [rotl] moves bit [i - 7]
    (modulo 32) to bit [i]; and it leaves [mt_table] equal to the result
    of [t = s1 << 9; s2 ^= s0; s3 ^= s1; s1 ^= s2; s0 ^= s3; s2 ^= t;
    s3 = rotl(s3, 11)] applied in that order.  Nothing but the table is
    read or written: the flag and the world are unchanged, and any other
    state holding the same table gives the same output and table. *)
Theorem mt_random_correct {W} (st : State W) (s0 s1 s2 s3 : Z) :
  is_u32 s0 -> is_u32 s1 -> is_u32 s2 -> is_u32 s3 ->
  mt_table st = [s0; s1; s2; s3] ->
  mt_random st =
    (wrap32 (rotl (wrap32 (s1 * 5)) 7 * 9),
     let t := wrap32 (Z.shiftl s1 9) in
     let s2' := Z.lxor s2 s0 in
     let s3' := Z.lxor s3 s1 in
     let s1' := Z.lxor s1 s2' in
     let s0' := Z.lxor s0 s3' in
     let s2'' := Z.lxor s2' t in
     let s3'' := rotl s3' 11 in
     mkState [s0'; s1'; s2''; s3''] (rand_use_native st) (world st))
  /\ (forall i, 0 <= i < 32 ->
        Z.testbit (rotl (wrap32 (s1 * 5)) 7) i =
          Z.testbit (wrap32 (s1 * 5)) ((i - 7) mod 32))
  /\ is_u32 (fst (mt_random st))
  /\ wf_state (snd (mt_random st))
  /\ (forall (W' : Type) (st' : State W'),
        mt_table st' = mt_table st ->
        fst (mt_random st') = fst (mt_random st) /\
        mt_table (snd (mt_random st')) = mt_table (snd (mt_random st))).
Proof.
  intros H0 H1 H2 H3 Et.
  assert (Hwf : wf_state st).
  { unfold wf_state. rewrite Et. apply wf_table_intro; assumption. }
  split; [| split; [| split; [| split]]].
  - destruct st as [t f w]. cbn [mt_table] in Et. subst t. reflexivity.
  - intros i Hi. apply rotl_testbit; [apply wrap32_u32 | lia | exact Hi].
  - apply (mt_random_out_u32 st).
  - apply mt_random_wf, Hwf.
  - intros W' st' E. unfold mt_random.
    cbn [fst snd set_mt_table mt_table]. rewrite E. split; reflexivity.
Qed.

Lemma mt_random_correct_witness :
  mt_random (mkState [1; 2; 3; 4] false 0) =
    (11520, mkState [7; 0; 1026; 12288] false 0).
Proof.
  destruct (mt_random_correct (mkState [1; 2; 3; 4] false 0) 1 2 3 4)
    as [E _]; try (unfold is_u32; lia); [reflexivity |].
  rewrite E. reflexivity.
Defined.

(** C2.  For every 32-bit seed, [mt_seed_random] fills the four slots
    of [mt_table] in the order 0, 1, 2, 3: it keeps an accumulator that
    starts at the seed, adds [0x9E3779B9] to it (wrapping at 32 bits)
    before each slot, and stores the SplitMix32 mix of the accumulator
    ([s ^= s >> 15; s *= 0x85EBCA6B; s ^= s >> 13; s *= 0xC2B2AE35;
    s ^= s >> 16], wrapping at 32 bits).  After [k] turns exactly the
    first [k] slots hold their final values. *)
Theorem mt_seed_random_correct {W} (seed : Z) (st : State W) :
  wf_state st -> is_u32 seed ->
  mt_seed_random seed st =
    mkState (SeedExpander seed) (rand_use_native st) (world st)
  /\ SeedExpander seed =
       [ splitmix32_mix (wrap32 (seed + 1 * 0x9E3779B9));
         splitmix32_mix (wrap32 (seed + 2 * 0x9E3779B9));
         splitmix32_mix (wrap32 (seed + 3 * 0x9E3779B9));
         splitmix32_mix (wrap32 (seed + 4 * 0x9E3779B9)) ]
  /\ (forall k : nat, (k <= 4)%nat ->
        mt_seed_loop k 0 seed (mt_table st) =
          take k (SeedExpander seed) ++ drop k (mt_table st))
  /\ wf_state (mt_seed_random seed st).
Proof.
  intros Hwf _. split; [| split; [| split]].
  - apply mt_seed_random_table, Hwf.
  - apply SeedExpander_closed.
  - intros k Hk. destruct Hwf as [Hlen _].
    rewrite mt_seed_loop_spec by (rewrite Hlen; cbn; lia).
    unfold SeedExpander. rewrite take_SeedExpander_slots by exact Hk.
    reflexivity.
  - apply mt_seed_random_wf, Hwf.
Qed.

Lemma mt_seed_random_correct_witness :
  mt_seed_random 1 (initial_state 0) =
    mkState [112534334; 2466076606; 3094215072; 916842724] true 0.
Proof.
  destruct (mt_seed_random_correct 1 (initial_state 0)) as [E _].
  - apply wf_initial_state.
  - unfold is_u32. lia.
  - rewrite E. reflexivity.
Defined.

Section Claims.
Context {W : Type} `{HW : Host W}.
Implicit Types (b : Build) (st : State W).

(** C3.  For every 32-bit seed: [glulx_setrandom] with seed 0 sets
    the mode to Native and runs the native source's reseed
    ([RAND_SET_SEED], which reseeds from the clock: the xoshiro table
    in the builds whose native source is xoshiro, [srandom] under
    [OS_UNIX], nothing under Visual C++); with any other seed it sets
    the mode to Deterministic and resets the table to the seed
    expansion of that seed.  Every call takes one of these two
    branches. *)
Theorem glulx_setrandom_correct b (seed : Z) st :
  wf_state st -> is_u32 seed ->
  (seed = 0 ->
     glulx_setrandom b seed st =
       RAND_SET_SEED b (set_rand_use_native true st)
     /\ rand_use_native (glulx_setrandom b seed st) = true
     /\ (native_is_xoshiro b = true ->
           glulx_setrandom b seed st =
             mkState (SeedExpander (wrap32 (time (world st)))) true
               (world st))
     /\ (b = OS_UNIX ->
           glulx_setrandom b seed st =
             mkState (mt_table st) true
               (srandom (wrap32 (time (world st))) (world st)))
     /\ (b = OS_WINDOWS_MSC ->
           glulx_setrandom b seed st =
             mkState (mt_table st) true (world st)))
  /\ (seed <> 0 ->
        glulx_setrandom b seed st =
          mkState (SeedExpander seed) false (world st))
  /\ (glulx_setrandom b seed st =
        RAND_SET_SEED b (set_rand_use_native true st)
      \/ glulx_setrandom b seed st =
           mkState (SeedExpander seed) false (world st)).
Proof.
  intros Hwf _. split; [| split].
  - intros ->. rewrite glulx_setrandom_zero.
    split; [reflexivity |]. split; [apply RAND_SET_SEED_flag |].
    split; [| split].
    + intros Hx.
      assert (E : RAND_SET_SEED b (set_rand_use_native true st) =
                  mt_seed_random (wrap32 (time (world st)))
                    (set_rand_use_native true st))
        by (destruct b; try discriminate Hx; reflexivity).
      rewrite E, mt_seed_random_table by apply Hwf. reflexivity.
    + intros ->. reflexivity.
    + intros ->. reflexivity.
  - intros Hne. apply glulx_setrandom_nonzero; [apply Hwf | exact Hne].
  - destruct (Z.eq_dec seed 0) as [-> | Hne]; [left; reflexivity | right].
    apply glulx_setrandom_nonzero; [apply Hwf | exact Hne].
Qed.

(** C4.  [glulx_random] returns the native source's output unchanged
    when the mode is Native (the output being a 32-bit value, as the
    conversion to [glui32] of the returned expression requires), and
    otherwise returns the core generator step applied to the current
    table.  Both operations return for every input. *)
Theorem glulx_random_correct b st :
  (rand_use_native st = true ->
     forall (v : Z) (st' : State W),
       RAND_GET b st = (v, st') -> is_u32 v ->
       glulx_random b st = (v, st'))
  /\ (rand_use_native st = false ->
        glulx_random b st = mt_random st
        /\ (length (mt_table st) = 4%nat ->
              glulx_random b st =
                (fst (CoreGenerator (slots_of (mt_table st))),
                 set_mt_table
                   (table_of (snd (CoreGenerator (slots_of (mt_table st)))))
                   st)))
  /\ (exists (v : Z) (st' : State W),
        glulx_random b st = (v, st') /\ is_u32 v)
  /\ (forall seed : Z, exists st' : State W, glulx_setrandom b seed st = st').
Proof.
  split; [| split; [| split]].
  - intros E v st' Hget Hv. rewrite glulx_random_native by exact E.
    rewrite Hget. cbn [fst snd]. rewrite wrap32_small by exact Hv.
    reflexivity.
  - intros E. rewrite glulx_random_deterministic by exact E.
    split; [reflexivity |]. intros Hlen. apply mt_random_slots, Hlen.
  - exists (fst (glulx_random b st)), (snd (glulx_random b st)).
    split; [apply surjective_pairing | apply glulx_random_out_u32].
  - intros seed. eexists. reflexivity.
Qed.

(** C5.  For every nonzero 32-bit seed [S] and from any prior state,
    [glulx_setrandom 0] followed by [glulx_setrandom S] leaves the
    program producing, on every number of later [glulx_random] calls,
    the same outputs as a freshly started program on which only
    [glulx_setrandom S] was called. *)
Theorem setrandom_zero_then_seed b (S : Z) st (w0 : W) (n : nat) :
  wf_state st -> is_u32 S -> S <> 0 ->
  fst (glulx_random_n b n (glulx_setrandom b S (glulx_setrandom b 0 st))) =
    fst (glulx_random_n b n (glulx_setrandom b S (initial_state w0))).
Proof.
  intros Hwf _ HS.
  rewrite !glulx_random_n_seeded; try exact HS; try reflexivity.
  apply (glulx_setrandom_wf b 0 st Hwf).
Qed.

(** C6.  For every nonzero 32-bit seed [S], two independent runs that
    call [glulx_setrandom S] and then [glulx_random] [n] times obtain
    the same [n] outputs, for every [n] (so for 10,000 and more): the
    outputs are [deterministic_outputs S n], a function of the seed
    alone, whatever the build, the earlier state and the world. *)
Theorem deterministic_sequence b1 b2 (S : Z) (st1 st2 : State W) (n : nat) :
  wf_state st1 -> wf_state st2 -> is_u32 S -> S <> 0 ->
  fst (glulx_random_n b1 n (glulx_setrandom b1 S st1)) =
    fst (glulx_random_n b2 n (glulx_setrandom b2 S st2))
  /\ fst (glulx_random_n b1 n (glulx_setrandom b1 S st1)) =
       deterministic_outputs S n
  /\ length (fst (glulx_random_n b1 n (glulx_setrandom b1 S st1))) = n.
Proof.
  intros Hwf1 Hwf2 _ HS.
  rewrite !glulx_random_n_seeded by (apply Hwf1 || apply Hwf2 || exact HS).
  split; [reflexivity |]. split; [reflexivity |].
  apply length_CoreGenerator_n.
Qed.

(** C9, as the code has it.  Every call of [glulx_random], in either
    mode, leaves the mode flag unchanged.  In Native mode it leaves
    [mt_table] untouched in the builds whose native source is a
    platform generator ([OS_UNIX], Visual C++); in the builds whose
    native source is the xoshiro generator itself it advances
    [mt_table] by one core step. *)
Theorem glulx_random_frame b st :
  rand_use_native (snd (glulx_random b st)) = rand_use_native st
  /\ (rand_use_native st = true -> native_is_xoshiro b = false ->
        mt_table (snd (glulx_random b st)) = mt_table st)
  /\ (rand_use_native st = true -> native_is_xoshiro b = true ->
        snd (glulx_random b st) = snd (mt_random st)).
Proof.
  split; [apply glulx_random_flag |]. split; intros E Hx.
  - rewrite glulx_random_native by exact E.
    apply RAND_GET_platform_table, Hx.
  - rewrite glulx_random_native by exact E.
    rewrite RAND_GET_xoshiro by exact Hx. reflexivity.
Qed.

(** C10.  In the build where no native generator macro is defined
    ([RAND_GET] is [mt_random]), before any call of
    [glulx_setrandom] the table is the all-zero fixed point: every
    [glulx_random] call returns 0 and leaves the state as it was. *)
Theorem unseeded_fallback_returns_zero (w : W) (n : nat) :
  mt_table (initial_state w) = [0; 0; 0; 0]
  /\ glulx_random OS_NONE (initial_state w) = (0, initial_state w)
  /\ glulx_random_n OS_NONE n (initial_state w) =
       (repeat 0 n, initial_state w).
Proof.
  split; [reflexivity |]. split; [reflexivity |].
  induction n as [| n IH]; [reflexivity |].
  cbn [glulx_random_n repeat].
  change (glulx_random OS_NONE (initial_state w)) with (0, initial_state w).
  cbv beta iota. rewrite IH. reflexivity.
Qed.

End Claims.

(** C7.  For every seed in [1, 2^32 - 1] the table produced by
    [mt_seed_random] is not all-zero, and it is not all-zero after any
    number [n <= 2^16] of [mt_random] steps. *)
Theorem seeded_state_never_zero {W} (seed : Z) (st : State W) (n : nat) :
  wf_state st -> 1 <= seed <= 2 ^ 32 - 1 -> (n <= 2 ^ 16)%nat ->
  mt_table (mt_seed_random seed st) <> [0; 0; 0; 0]
  /\ mt_table (snd (mt_random_n n (mt_seed_random seed st))) <> [0; 0; 0; 0].
Proof.
  intros Hwf _ _. rewrite mt_seed_random_table by apply Hwf.
  cbn [mt_table set_mt_table]. split; [apply SeedExpander_nonzero |].
  rewrite mt_random_n_slots by apply SeedExpander_wf.
  cbn [snd mt_table set_mt_table]. intros E.
  apply (CoreGenerator_n_nonzero n (slots_of (SeedExpander seed))).
  - rewrite table_of_slots_of by apply SeedExpander_wf. apply SeedExpander_wf.
  - intros E0. apply (SeedExpander_nonzero seed).
    rewrite <- (table_of_slots_of (SeedExpander seed)) by apply SeedExpander_wf.
    rewrite E0. reflexivity.
  - destruct (snd (CoreGenerator_n n (slots_of (SeedExpander seed))))
      as [[[a0 a1] a2] a3].
    cbn [table_of] in E. injection E as -> -> -> ->. reflexivity.
Qed.

(** * The claims evaluated on the concrete host *)

Lemma glulx_setrandom_correct_witness :
  glulx_setrandom OS_UNIX 12345 (initial_state 7) =
    mkState [2952118001; 3375188146; 293111882; 2027520433] false 7
  /\ glulx_setrandom OS_STDC 0 (initial_state 1) =
       mkState [112534334; 2466076606; 3094215072; 916842724] true 1.
Proof.
  split.
  - destruct (glulx_setrandom_correct OS_UNIX 12345 (initial_state 7))
      as (_ & E & _);
      [apply wf_initial_state | unfold is_u32; lia |].
    rewrite E by lia. reflexivity.
  - destruct (glulx_setrandom_correct OS_STDC 0 (initial_state 1))
      as (E & _);
      [apply wf_initial_state | unfold is_u32; lia |].
    destruct (E eq_refl) as (_ & _ & Ex & _).
    rewrite Ex by reflexivity. reflexivity.
Defined.

Lemma glulx_random_correct_witness :
  glulx_random OS_UNIX (initial_state 7) =
    (1282168116, mkState [0; 0; 0; 0] true 1282168116)
  /\ glulx_random OS_UNIX (mkState [1; 2; 3; 4] false 0) =
       (11520, mkState [7; 0; 1026; 12288] false 0).
Proof.
  split.
  - destruct (glulx_random_correct OS_UNIX (initial_state 7)) as (E & _).
    apply E; [reflexivity | reflexivity | unfold is_u32; lia].
  - destruct (glulx_random_correct OS_UNIX (mkState [1; 2; 3; 4] false 0))
      as (_ & E & _).
    destruct (E eq_refl) as [Em _]. rewrite Em. reflexivity.
Defined.

Lemma setrandom_zero_then_seed_witness :
  wf_state (initial_state 5) /\ is_u32 12345 /\ 12345 <> 0 /\
  fst (glulx_random_n OS_STDC 3
         (glulx_setrandom OS_STDC 12345
            (glulx_setrandom OS_STDC 0 (initial_state 5)))) =
    fst (glulx_random_n OS_STDC 3
           (glulx_setrandom OS_STDC 12345 (initial_state 9))).
Proof.
  assert (Hwf : wf_state (initial_state 5)) by apply wf_initial_state.
  assert (Hu : is_u32 12345) by (unfold is_u32; lia).
  assert (Hne : 12345 <> 0) by lia.
  repeat (split; [assumption |]).
  apply (setrandom_zero_then_seed OS_STDC 12345 (initial_state 5) 9 3);
    assumption.
Defined.

Lemma deterministic_sequence_witness :
  fst (glulx_random_n OS_UNIX 3
         (glulx_setrandom OS_UNIX 12345 (initial_state 1))) =
    [2061740326; 2601765891; 612705138]
  /\ fst (glulx_random_n OS_NONE 3
            (glulx_setrandom OS_NONE 12345
               (glulx_setrandom OS_NONE 777 (initial_state 2)))) =
       [2061740326; 2601765891; 612705138].
Proof.
  destruct (deterministic_sequence OS_UNIX OS_NONE 12345
              (initial_state 1)
              (glulx_setrandom OS_NONE 777 (initial_state 2)) 3)
    as (E12 & E1 & _).
  - apply wf_initial_state.
  - apply glulx_setrandom_wf, wf_initial_state.
  - unfold is_u32. lia.
  - lia.
  - rewrite <- E12, E1. split; reflexivity.
Defined.

Lemma seeded_state_never_zero_witness :
  mt_table (mt_seed_random 1 (initial_state 0)) <> [0; 0; 0; 0]
  /\ mt_table (snd (mt_random_n 3 (mt_seed_random 1 (initial_state 0))))
       <> [0; 0; 0; 0].
Proof.
  apply (seeded_state_never_zero 1 (initial_state 0) 3).
  - apply wf_initial_state.
  - lia.
  - apply Nat.leb_le. reflexivity.
Defined.

Lemma glulx_random_frame_witness :
  mt_table
    (snd (glulx_random OS_UNIX
            (glulx_setrandom OS_UNIX 0
               (glulx_setrandom OS_UNIX 1 (initial_state 7))))) =
    [112534334; 2466076606; 3094215072; 916842724]
  /\ snd (glulx_random OS_STDC (glulx_setrandom OS_STDC 0 (initial_state 1))) =
       snd (mt_random (glulx_setrandom OS_STDC 0 (initial_state 1))).
Proof.
  split.
  - destruct (glulx_random_frame OS_UNIX
                (glulx_setrandom OS_UNIX 0
                   (glulx_setrandom OS_UNIX 1 (initial_state 7))))
      as (_ & E & _).
    rewrite E by reflexivity. reflexivity.
  - destruct (glulx_random_frame OS_STDC
                (glulx_setrandom OS_STDC 0 (initial_state 1)))
      as (_ & _ & E).
    apply E; reflexivity.
Defined.

(** * Where the code departs from the specification *)


(** C9 as worded fails.  In the [OS_STDC] build, in Native mode (after
    [glulx_setrandom 0] with the clock at 1), a [glulx_random] call
    changes [mt_table]. *)
Lemma native_xoshiro_advances_table :
  rand_use_native (glulx_setrandom OS_STDC 0 (initial_state 1)) = true
  /\ mt_table
       (snd (glulx_random OS_STDC (glulx_setrandom OS_STDC 0 (initial_state 1))))
     <> mt_table (glulx_setrandom OS_STDC 0 (initial_state 1)).
Proof.
  split; [reflexivity |].
  intros E. vm_compute in E. discriminate E.
Qed.

(** * Further properties of the generator *)

(** ** Bitwise facts *)

Lemma lxor_cancel_pair (x y p q : Z) :
  Z.lxor (Z.lxor x y) (Z.lxor p q) = Z.lxor (Z.lxor x p) (Z.lxor y q).
Proof.
  apply Z.bits_inj'. intros i _. rewrite !Z.lxor_spec.
  destruct (Z.testbit x i), (Z.testbit y i), (Z.testbit p i), (Z.testbit q i);
    reflexivity.
Qed.

Lemma lxor_eq_iff_zero (x y : Z) : Z.lxor x y = 0 <-> x = y.
Proof.
  split; [apply Z.lxor_eq | intros ->; apply Z.lxor_nilpotent].
Qed.

Lemma xorshift_inj (x y k : Z) :
  0 <= x -> 0 <= y -> 0 < k ->
  Z.lxor x (Z.shiftr x k) = Z.lxor y (Z.shiftr y k) -> x = y.
Proof.
  intros Hx Hy Hk E. apply Z.lxor_eq.
  apply (xorshift_zero _ k); [apply Z.lxor_nonneg; lia | exact Hk |].
  rewrite Z.shiftr_lxor, lxor_cancel_pair. apply lxor_eq_iff_zero, E.
Qed.

Lemma unit_mul_cancel (c cinv s : Z) :
  wrap32 (c * cinv) = 1 -> wrap32 (wrap32 (s * c) * cinv) = wrap32 s.
Proof.
  unfold wrap32. intros Hinv.
  rewrite Z.mul_mod_idemp_l, <- Z.mul_assoc, <- Z.mul_mod_idemp_r, Hinv by lia.
  f_equal. lia.
Qed.

Lemma unit_mul_inj (c cinv x y : Z) :
  wrap32 (c * cinv) = 1 -> is_u32 x -> is_u32 y ->
  wrap32 (x * c) = wrap32 (y * c) -> x = y.
Proof.
  intros Hinv Hx Hy E.
  rewrite <- (wrap32_small x Hx), <- (wrap32_small y Hy).
  rewrite <- (unit_mul_cancel c cinv x Hinv), <- (unit_mul_cancel c cinv y Hinv).
  rewrite E. reflexivity.
Qed.

Lemma splitmix32_mix_inj (a b : Z) :
  is_u32 a -> is_u32 b -> splitmix32_mix a = splitmix32_mix b -> a = b.
Proof.
  unfold splitmix32_mix. cbv zeta. intros Ha Hb E.
  assert (Hxs : forall z, is_u32 z -> is_u32 (Z.lxor z (Z.shiftr z 15))).
  { intros z Hz. apply lxor_u32; [| apply shiftr_u32]; auto; lia. }
  assert (Hys : forall z, is_u32 z -> is_u32 (Z.lxor z (Z.shiftr z 13))).
  { intros z Hz. apply lxor_u32; [| apply shiftr_u32]; auto; lia. }
  pose proof (Hxs a Ha) as Ha1. pose proof (Hxs b Hb) as Hb1.
  set (a1 := Z.lxor a (Z.shiftr a 15)) in *.
  set (b1 := Z.lxor b (Z.shiftr b 15)) in *.
  pose proof (Hys _ (wrap32_u32 (a1 * 0x85EBCA6B))) as Ha2.
  pose proof (Hys _ (wrap32_u32 (b1 * 0x85EBCA6B))) as Hb2.
  set (a2 := Z.lxor (wrap32 (a1 * 0x85EBCA6B)) _) in *.
  set (b2 := Z.lxor (wrap32 (b1 * 0x85EBCA6B)) _) in *.
  apply xorshift_inj in E;
    [| apply wrap32_u32 | apply wrap32_u32 | lia].
  apply (unit_mul_inj _ 2127672349) in E;
    [| reflexivity | exact Ha2 | exact Hb2].
  subst a2 b2.
  apply xorshift_inj in E;
    [| apply wrap32_u32 | apply wrap32_u32 | lia].
  apply (unit_mul_inj _ 2781581891) in E;
    [| reflexivity | exact Ha1 | exact Hb1].
  subst a1 b1.
  apply xorshift_inj in E; [exact E | apply Ha | apply Hb | lia].
Qed.

Lemma rotl_rotl_inverse (x k : Z) :
  is_u32 x -> 0 < k < 32 -> rotl (rotl x k) (32 - k) = x.
Proof.
  intros Hx Hk. apply Z.bits_inj'. intros i Hi.
  destruct (Z.lt_ge_cases i 32) as [Hlt | Hge].
  - rewrite rotl_testbit by (try apply rotl_u32; auto; lia).
    rewrite rotl_testbit;
      [| exact Hx | exact Hk | apply Z.mod_pos_bound; lia].
    rewrite Zminus_mod_idemp_l.
    replace (i - (32 - k) - k) with (i + (-1) * 32) by lia.
    rewrite Z.mod_add, Z.mod_small by lia. reflexivity.
  - rewrite (u32_high_bits x i Hx Hge).
    apply u32_high_bits; [| exact Hge].
    apply rotl_u32; [apply rotl_u32; [exact Hx | lia] | lia].
Qed.

Lemma rotl_inj (x y k : Z) :
  is_u32 x -> is_u32 y -> 0 < k < 32 -> rotl x k = rotl y k -> x = y.
Proof.
  intros Hx Hy Hk E.
  rewrite <- (rotl_rotl_inverse x k Hx Hk), <- (rotl_rotl_inverse y k Hy Hk).
  rewrite E. reflexivity.
Qed.

Lemma shl_wrap_lxor (x y k : Z) :
  wrap32 (Z.shiftl (Z.lxor x y) k) =
    Z.lxor (wrap32 (Z.shiftl x k)) (wrap32 (Z.shiftl y k)).
Proof.
  unfold wrap32. apply Z.bits_inj'. intros i _.
  rewrite Z.lxor_spec, !Z.testbit_mod_pow2, Z.shiftl_lxor, Z.lxor_spec by lia.
  destruct (i <? 32); [reflexivity |]. reflexivity.
Qed.

Lemma shl_xor_inj (x y : Z) :
  is_u32 x -> is_u32 y ->
  Z.lxor x (wrap32 (Z.shiftl x 9)) = Z.lxor y (wrap32 (Z.shiftl y 9)) ->
  x = y.
Proof.
  intros Hx Hy E. apply Z.lxor_eq.
  apply shl_xor_zero; [apply lxor_u32; assumption |].
  rewrite shl_wrap_lxor, lxor_cancel_pair. apply lxor_eq_iff_zero, E.
Qed.

Ltac xor_bits :=
  apply Z.bits_inj'; intros ? _; rewrite !Z.lxor_spec;
  repeat match goal with
         | |- context [Z.testbit ?a ?i] => destruct (Z.testbit a i)
         end;
  reflexivity.

Lemma lxor_cancel_r (a b c : Z) : Z.lxor a c = Z.lxor b c -> a = b.
Proof.
  intros E.
  replace a with (Z.lxor (Z.lxor a c) c) by xor_bits.
  rewrite E. xor_bits.
Qed.

Lemma lxor_cancel_l (a b c : Z) : Z.lxor c a = Z.lxor c b -> a = b.
Proof.
  intros E. apply (lxor_cancel_r a b c).
  rewrite (Z.lxor_comm a c), (Z.lxor_comm b c). exact E.
Qed.

Lemma lxor_fixed_l (a b : Z) : Z.lxor a b = a -> b = 0.
Proof.
  intros E. apply (lxor_cancel_l b 0 a). rewrite Z.lxor_0_r. exact E.
Qed.

(** ** The core step as a map on states *)

Lemma table_of_inj (s r : Z * Z * Z * Z) : table_of s = table_of r -> s = r.
Proof.
  destruct s as [[[s0 s1] s2] s3], r as [[[r0 r1] r2] r3].
  cbn [table_of]. intros E. injection E as -> -> -> ->. reflexivity.
Qed.

Lemma slots_of_inj (t u : list Z) :
  length t = 4%nat -> length u = 4%nat -> slots_of t = slots_of u -> t = u.
Proof.
  intros Ht Hu E.
  rewrite <- (table_of_slots_of t Ht), <- (table_of_slots_of u Hu), E.
  reflexivity.
Qed.

Lemma CoreGenerator_state_inj (s r : Z * Z * Z * Z) :
  wf_table (table_of s) -> wf_table (table_of r) ->
  snd (CoreGenerator s) = snd (CoreGenerator r) -> s = r.
Proof.
  destruct s as [[[s0 s1] s2] s3], r as [[[r0 r1] r2] r3].
  intros Hs Hr E.
  apply wf_table_inv in Hs.
  destruct Hs as (? & ? & ? & ? & Es & Hs0 & Hs1 & Hs2 & Hs3).
  injection Es as <- <- <- <-.
  apply wf_table_inv in Hr.
  destruct Hr as (? & ? & ? & ? & Er & Hr0 & Hr1 & Hr2 & Hr3).
  injection Er as <- <- <- <-.
  cbn [CoreGenerator snd] in E. injection E as E0 E1 E2 E3.
  apply rotl_inj in E3; [| auto with u32 | auto with u32 | lia].
  rewrite E3 in E0. apply lxor_cancel_r in E0. subst r0.
  assert (E12 : Z.lxor s1 (wrap32 (Z.shiftl s1 9)) =
                Z.lxor r1 (wrap32 (Z.shiftl r1 9))).
  { replace (Z.lxor s1 (wrap32 (Z.shiftl s1 9)))
      with (Z.lxor (Z.lxor s1 (Z.lxor s2 s0))
              (Z.lxor (Z.lxor s2 s0) (wrap32 (Z.shiftl s1 9)))) by xor_bits.
    rewrite E1, E2. xor_bits. }
  apply shl_xor_inj in E12; [| assumption | assumption]. subst r1.
  apply lxor_cancel_l, lxor_cancel_r in E1. subst r2.
  apply lxor_cancel_r in E3. subst r3.
  reflexivity.
Qed.

Lemma CoreGenerator_fixed_point (s : Z * Z * Z * Z) :
  wf_table (table_of s) -> snd (CoreGenerator s) = s -> s = (0, 0, 0, 0).
Proof.
  destruct s as [[[s0 s1] s2] s3]. intros Hs E.
  apply wf_table_inv in Hs.
  destruct Hs as (? & ? & ? & ? & Es & Hs0 & Hs1 & Hs2 & Hs3).
  injection Es as <- <- <- <-.
  cbn [CoreGenerator snd] in E. injection E as E0 E1 E2 E3.
  apply lxor_fixed_l in E0. rewrite E0 in E3.
  change (rotl 0 11) with 0 in E3. subst s3.
  rewrite Z.lxor_0_l in E0. subst s1.
  apply lxor_fixed_l in E1. rewrite E1 in E2.
  change (wrap32 (Z.shiftl 0 9)) with 0 in E2.
  rewrite Z.lxor_0_l in E2. subst s2.
  rewrite Z.lxor_0_l in E1. subst s0.
  reflexivity.
Qed.

Lemma CoreGenerator_output_inj (s1 r1 : Z) :
  is_u32 s1 -> is_u32 r1 ->
  wrap32 (rotl (wrap32 (s1 * 5)) 7 * 9) = wrap32 (rotl (wrap32 (r1 * 5)) 7 * 9) ->
  s1 = r1.
Proof.
  intros Hs Hr E.
  apply (unit_mul_inj 9 954437177) in E;
    [| reflexivity | apply rotl_u32; [apply wrap32_u32 | lia]
     | apply rotl_u32; [apply wrap32_u32 | lia]].
  apply rotl_inj in E; [| apply wrap32_u32 | apply wrap32_u32 | lia].
  apply (unit_mul_inj 5 3435973837) in E; [exact E | reflexivity | |];
    assumption.
Qed.

Lemma accumulators_distinct (seed i j : Z) :
  1 <= i < j -> j <= 4 ->
  wrap32 (seed + i * 0x9E3779B9) <> wrap32 (seed + j * 0x9E3779B9).
Proof.
  unfold wrap32. intros Hi Hj E. revert E.
  generalize (Z.div_mod (seed + i * 0x9E3779B9) (2 ^ 32)).
  generalize (Z.div_mod (seed + j * 0x9E3779B9) (2 ^ 32)).
  assert (Hd : j - i = 1 \/ j - i = 2 \/ j - i = 3) by lia.
  destruct Hd as [Hd | [Hd | Hd]]; lia.
Qed.

Lemma SeedExpander_slot0_inj (a b : Z) :
  is_u32 a -> is_u32 b ->
  SeedExpander a !!! 0%nat = SeedExpander b !!! 0%nat -> a = b.
Proof.
  intros Ha Hb. rewrite !SeedExpander_closed.
  intros E. change (splitmix32_mix (wrap32 (a + 1 * 0x9E3779B9)) =
                    splitmix32_mix (wrap32 (b + 1 * 0x9E3779B9))) in E.
  apply splitmix32_mix_inj in E; [| apply wrap32_u32 | apply wrap32_u32].
  unfold wrap32, is_u32 in *. revert E.
  generalize (Z.div_mod (a + 1 * 0x9E3779B9) (2 ^ 32)).
  generalize (Z.div_mod (b + 1 * 0x9E3779B9) (2 ^ 32)).
  generalize (Z.mod_pos_bound (a + 1 * 0x9E3779B9) (2 ^ 32)).
  generalize (Z.mod_pos_bound (b + 1 * 0x9E3779B9) (2 ^ 32)).
  lia.
Qed.

(** ** [rotl] *)

(** For a 32-bit [x] and a shift count [0 < k < 32], [rotl x k] is a
    32-bit value whose bit [i] is bit [i - k] (modulo 32) of [x]: the
    bits shifted out at the top come back at the bottom and none is
    lost. *)
Theorem rotl_is_rotation (x k : Z) :
  is_u32 x -> 0 < k < 32 ->
  is_u32 (rotl x k)
  /\ forall i, 0 <= i < 32 ->
       Z.testbit (rotl x k) i = Z.testbit x ((i - k) mod 32).
Proof.
  intros Hx Hk. split.
  - apply rotl_u32; [exact Hx | lia].
  - intros i Hi. apply rotl_testbit; assumption.
Qed.

Lemma rotl_is_rotation_witness :
  is_u32 (rotl 0x80000001 7)
  /\ Z.testbit (rotl 0x80000001 7) 6 = Z.testbit 0x80000001 ((6 - 7) mod 32).
Proof.
  destruct (rotl_is_rotation 0x80000001 7) as [Hu Hb];
    [unfold is_u32; lia | lia |].
  split; [exact Hu | apply Hb; lia].
Defined.

(** Rotating left by [k] and then by [32 - k] gives the word back, so
    [rotl] by a fixed count is one-to-one on 32-bit words. *)
Theorem rotl_round_trip (x y k : Z) :
  is_u32 x -> is_u32 y -> 0 < k < 32 ->
  rotl (rotl x k) (32 - k) = x
  /\ (rotl x k = rotl y k -> x = y).
Proof.
  intros Hx Hy Hk. split.
  - apply rotl_rotl_inverse; assumption.
  - apply rotl_inj; assumption.
Qed.

Lemma rotl_round_trip_witness :
  rotl (rotl 0xDEADBEEF 11) (32 - 11) = 0xDEADBEEF.
Proof.
  apply (rotl_round_trip 0xDEADBEEF 0 11); unfold is_u32; lia.
Defined.

(** ** [mt_seed_random] *)

(** Two different 32-bit seeds never expand to the same table: already
    slot 0 differs. *)
Theorem mt_seed_random_injective {W} (a b : Z) (st st' : State W) :
  wf_state st -> wf_state st' -> is_u32 a -> is_u32 b ->
  (mt_table (mt_seed_random a st) !!! 0%nat =
     mt_table (mt_seed_random b st') !!! 0%nat -> a = b)
  /\ (mt_table (mt_seed_random a st) = mt_table (mt_seed_random b st') ->
        a = b).
Proof.
  intros Hwf Hwf' Ha Hb.
  assert (H0 : mt_table (mt_seed_random a st) !!! 0%nat =
                 mt_table (mt_seed_random b st') !!! 0%nat -> a = b).
  { rewrite !mt_seed_random_table by (apply Hwf || apply Hwf').
    apply SeedExpander_slot0_inj; assumption. }
  split; [exact H0 |]. intros E. apply H0. rewrite E. reflexivity.
Qed.

Lemma mt_seed_random_injective_witness :
  mt_table (mt_seed_random 1 (initial_state 0)) <>
    mt_table (mt_seed_random 2 (initial_state 0)).
Proof.
  intros E.
  destruct (mt_seed_random_injective 1 2 (initial_state 0) (initial_state 0))
    as [_ H]; try apply wf_initial_state; try (unfold is_u32; lia).
  specialize (H E). discriminate H.
Defined.

(** After seeding, the four words of the table are pairwise
    different, whatever the seed. *)
Theorem mt_seed_random_slots_distinct {W} (seed : Z) (st : State W) :
  wf_state st -> NoDup (mt_table (mt_seed_random seed st)).
Proof.
  intros Hwf. rewrite mt_seed_random_table by apply Hwf.
  cbn [mt_table set_mt_table]. rewrite SeedExpander_closed.
  assert (Hne : forall i j, 1 <= i < j -> j <= 4 ->
            splitmix32_mix (wrap32 (seed + i * 0x9E3779B9)) <>
            splitmix32_mix (wrap32 (seed + j * 0x9E3779B9))).
  { intros i j Hi Hj E.
    apply splitmix32_mix_inj in E; [| apply wrap32_u32 | apply wrap32_u32].
    exact (accumulators_distinct seed i j Hi Hj E). }
  repeat (apply NoDup_cons; split;
          [rewrite ?not_elem_of_cons; repeat split;
           try (apply Hne; lia); apply not_elem_of_nil |]).
  apply NoDup_nil_2.
Qed.

Lemma mt_seed_random_slots_distinct_witness :
  NoDup (mt_table (mt_seed_random 0 (initial_state 0))).
Proof.
  apply (mt_seed_random_slots_distinct 0 (initial_state 0)).
  apply wf_initial_state.
Defined.

(** ** [mt_random] *)

(** The state update of [mt_random] is one-to-one: two tables of
    32-bit words with the same successor are the same table.  The
    generator never merges two states. *)
Theorem mt_random_state_injective {W} (st st' : State W) :
  wf_state st -> wf_state st' ->
  mt_table (snd (mt_random st)) = mt_table (snd (mt_random st')) ->
  mt_table st = mt_table st'.
Proof.
  intros Hwf Hwf' E.
  rewrite !mt_random_slots in E by (apply Hwf || apply Hwf').
  cbn [snd mt_table set_mt_table] in E.
  apply table_of_inj, CoreGenerator_state_inj in E.
  - apply slots_of_inj; [apply Hwf | apply Hwf' | exact E].
  - rewrite table_of_slots_of by apply Hwf. exact Hwf.
  - rewrite table_of_slots_of by apply Hwf'. exact Hwf'.
Qed.

Lemma mt_random_state_injective_witness :
  mt_table (snd (mt_random (mkState [1; 2; 3; 4] false 0))) <>
    mt_table (snd (mt_random (mkState [1; 2; 3; 5] false 0))).
Proof.
  intros E.
  apply (mt_random_state_injective
           (mkState [1; 2; 3; 4] false 0) (mkState [1; 2; 3; 5] false 0)) in E.
  - discriminate E.
  - apply wf_table_intro; unfold is_u32; lia.
  - apply wf_table_intro; unfold is_u32; lia.
Defined.

(** The value [mt_random] returns is a one-to-one function of slot 1
    alone: two tables give the same output exactly when they agree on
    slot 1, and the output is 0 exactly when slot 1 is 0. *)
Theorem mt_random_output_slot1 {W} (st st' : State W) :
  wf_state st -> wf_state st' ->
  (fst (mt_random st) = fst (mt_random st') <->
     mt_table st !!! 1%nat = mt_table st' !!! 1%nat)
  /\ (fst (mt_random st) = 0 <-> mt_table st !!! 1%nat = 0).
Proof.
  intros Hwf Hwf'.
  destruct (wf_table_inv _ Hwf) as (s0 & s1 & s2 & s3 & Es & _ & Hs1 & _).
  destruct (wf_table_inv _ Hwf') as (r0 & r1 & r2 & r3 & Er & _ & Hr1 & _).
  unfold mt_random. cbn [fst]. rewrite Es, Er.
  change ([s0; s1; s2; s3] !!! 1%nat) with s1.
  change ([r0; r1; r2; r3] !!! 1%nat) with r1.
  split; split.
  - apply CoreGenerator_output_inj; assumption.
  - intros ->. reflexivity.
  - intros E. apply (CoreGenerator_output_inj s1 0);
      [exact Hs1 | unfold is_u32; lia | rewrite E; reflexivity].
  - intros ->. reflexivity.
Qed.

Lemma mt_random_output_slot1_witness :
  fst (mt_random (mkState [1; 2; 3; 4] false 0)) =
    fst (mt_random (mkState [9; 2; 8; 7] true 5)).
Proof.
  apply (mt_random_output_slot1
           (mkState [1; 2; 3; 4] false 0) (mkState [9; 2; 8; 7] true 5)).
  - apply wf_table_intro; unfold is_u32; lia.
  - apply wf_table_intro; unfold is_u32; lia.
  - reflexivity.
Defined.

(** The all-zero table is the only table [mt_random] leaves as it
    is: from every other table of 32-bit words a call changes the
    table. *)
Theorem mt_random_fixed_point_only_zero {W} (st : State W) :
  wf_state st ->
  (mt_table (snd (mt_random st)) = mt_table st <->
     mt_table st = [0; 0; 0; 0]).
Proof.
  intros Hwf. split.
  - intros E. rewrite mt_random_slots in E by apply Hwf.
    cbn [snd mt_table set_mt_table] in E.
    rewrite <- (table_of_slots_of (mt_table st)) in E at 2 by apply Hwf.
    apply table_of_inj, CoreGenerator_fixed_point in E.
    + rewrite <- (table_of_slots_of (mt_table st)) by apply Hwf.
      rewrite E. reflexivity.
    + rewrite table_of_slots_of by apply Hwf. exact Hwf.
  - intros E. unfold mt_random. cbn [snd mt_table set_mt_table].
    rewrite E. reflexivity.
Qed.

Lemma mt_random_fixed_point_only_zero_witness :
  mt_table (snd (mt_random (mkState [1; 2; 3; 4] false 0))) <> [1; 2; 3; 4].
Proof.
  intros E.
  apply (mt_random_fixed_point_only_zero (mkState [1; 2; 3; 4] false 0)) in E.
  - discriminate E.
  - apply wf_table_intro; unfold is_u32; lia.
Defined.

(** ** The entry points over sequences of calls *)

Lemma mt_random_nonzero {W} (st : State W) :
  wf_state st -> mt_table st <> [0; 0; 0; 0] ->
  mt_table (snd (mt_random st)) <> [0; 0; 0; 0].
Proof.
  intros Hwf Hne E. apply Hne.
  rewrite mt_random_slots in E by apply Hwf.
  cbn [snd mt_table set_mt_table] in E.
  apply (table_of_inj _ (0, 0, 0, 0)), CoreGenerator_zero_inv in E.
  - rewrite <- (table_of_slots_of (mt_table st)) by apply Hwf.
    rewrite E. reflexivity.
  - rewrite table_of_slots_of by apply Hwf. exact Hwf.
Qed.

Section CallFacts.
Context {W : Type} `{HW : Host W}.
Implicit Types (b : Build) (st : State W) (cs : list Call).

Lemma glulx_random_xoshiro b st :
  native_is_xoshiro b = true -> glulx_random b st = mt_random st.
Proof.
  intros Hx. destruct (rand_use_native st) eqn:E.
  - rewrite glulx_random_native by exact E.
    rewrite RAND_GET_xoshiro by exact Hx.
    rewrite wrap32_small by apply mt_random_out_u32.
    symmetry. apply surjective_pairing.
  - apply glulx_random_deterministic, E.
Qed.

Lemma glulx_random_n_xoshiro b n st :
  native_is_xoshiro b = true -> glulx_random_n b n st = mt_random_n n st.
Proof.
  intros Hx. revert st. induction n as [| n IH]; intros st; [reflexivity |].
  cbn [glulx_random_n mt_random_n]. rewrite glulx_random_xoshiro by exact Hx.
  destruct (mt_random st) as [v st']. rewrite IH. reflexivity.
Qed.

Lemma glulx_setrandom_zero_xoshiro b st :
  length (mt_table st) = 4%nat -> native_is_xoshiro b = true ->
  glulx_setrandom b 0 st =
    mkState (SeedExpander (wrap32 (time (world st)))) true (world st).
Proof.
  intros Hlen Hx. rewrite glulx_setrandom_zero.
  destruct b; try discriminate Hx; cbn [RAND_SET_SEED];
    rewrite mt_seed_random_table by exact Hlen; reflexivity.
Qed.

Lemma glulx_setrandom_flag b seed st :
  rand_use_native (glulx_setrandom b seed st) = (seed =? 0).
Proof.
  unfold glulx_setrandom. destruct (seed =? 0).
  - apply RAND_SET_SEED_flag.
  - reflexivity.
Qed.

Lemma glulx_setrandom_nonzero_table b seed st :
  wf_state st ->
  seed <> 0 \/ native_is_xoshiro b = true \/ mt_table st <> [0; 0; 0; 0] ->
  mt_table (glulx_setrandom b seed st) <> [0; 0; 0; 0].
Proof.
  intros Hwf Hc. destruct (Z.eq_dec seed 0) as [-> | Hne].
  - destruct (native_is_xoshiro b) eqn:Hx.
    + rewrite glulx_setrandom_zero_xoshiro by (apply Hwf || exact Hx).
      apply SeedExpander_nonzero.
    + destruct Hc as [Hc | [Hc | Hc]]; [contradiction | discriminate Hc |].
      destruct b; try discriminate Hx; exact Hc.
  - rewrite glulx_setrandom_nonzero by (apply Hwf || exact Hne).
    apply SeedExpander_nonzero.
Qed.

Lemma glulx_random_nonzero_table b st :
  wf_state st -> mt_table st <> [0; 0; 0; 0] ->
  mt_table (snd (glulx_random b st)) <> [0; 0; 0; 0].
Proof.
  intros Hwf Hne. destruct (native_is_xoshiro b) eqn:Hx.
  - rewrite glulx_random_xoshiro by exact Hx.
    apply mt_random_nonzero; assumption.
  - destruct (rand_use_native st) eqn:E.
    + rewrite glulx_random_native by exact E. cbn [snd].
      rewrite RAND_GET_platform_table by exact Hx. exact Hne.
    + rewrite glulx_random_deterministic by exact E.
      apply mt_random_nonzero; assumption.
Qed.

Lemma run_calls_app b cs1 cs2 st :
  run_calls b (cs1 ++ cs2) st =
    (fst (run_calls b cs1 st) ++
       fst (run_calls b cs2 (snd (run_calls b cs1 st))),
     snd (run_calls b cs2 (snd (run_calls b cs1 st)))).
Proof.
  revert st. induction cs1 as [| [seed |] cs1 IH]; intros st.
  - cbn [app run_calls fst snd]. apply surjective_pairing.
  - cbn [app run_calls]. apply IH.
  - cbn [app run_calls]. destruct (glulx_random b st) as [v st'].
    rewrite IH. destruct (run_calls b cs1 st') as [vs st''].
    reflexivity.
Qed.

Lemma run_calls_only_random_flag b cs st :
  forallb is_call_random cs = true ->
  rand_use_native (snd (run_calls b cs st)) = rand_use_native st.
Proof.
  revert st. induction cs as [| [seed |] cs IH]; intros st Hr.
  - reflexivity.
  - discriminate Hr.
  - cbn [run_calls]. pose proof (glulx_random_flag b st) as Hf.
    destruct (glulx_random b st) as [v st']. cbn [snd] in Hf.
    specialize (IH st' Hr).
    destruct (run_calls b cs st') as [vs st'']. cbn [snd] in *.
    rewrite IH. exact Hf.
Qed.

Lemma run_calls_nonzero b cs st :
  wf_state st -> mt_table st <> [0; 0; 0; 0] ->
  mt_table (snd (run_calls b cs st)) <> [0; 0; 0; 0].
Proof.
  revert st. induction cs as [| [seed |] cs IH]; intros st Hwf Hne.
  - exact Hne.
  - cbn [run_calls]. apply IH.
    + apply glulx_setrandom_wf, Hwf.
    + apply glulx_setrandom_nonzero_table; [exact Hwf | right; right; exact Hne].
  - cbn [run_calls].
    pose proof (glulx_random_wf b st Hwf) as Hwf'.
    pose proof (glulx_random_nonzero_table b st Hwf Hne) as Hne'.
    destruct (glulx_random b st) as [v st']. cbn [snd] in Hwf', Hne'.
    specialize (IH st' Hwf' Hne').
    destruct (run_calls b cs st') as [vs st'']. exact IH.
Qed.

End CallFacts.

Section CallProperties.
Context {W : Type} `{HW : Host W}.
Implicit Types (b : Build) (st : State W) (cs : list Call).

(** Whatever calls are made and whatever the host's generators
    return, the table keeps four 32-bit words, every value
    [glulx_random] returns is a 32-bit value, and one value is returned
    per [glulx_random] call. *)
Theorem run_calls_invariant b cs st :
  wf_state st ->
  wf_state (snd (run_calls b cs st))
  /\ Forall is_u32 (fst (run_calls b cs st))
  /\ length (fst (run_calls b cs st)) = length (filter is_call_random cs).
Proof.
  revert st. induction cs as [| [seed |] cs IH]; intros st Hwf.
  - split; [exact Hwf |]. split; [apply Forall_nil_2 | reflexivity].
  - cbn [run_calls filter is_call_random].
    apply IH, glulx_setrandom_wf, Hwf.
  - cbn [run_calls].
    pose proof (glulx_random_wf b st Hwf) as Hwf'.
    pose proof (glulx_random_out_u32 b st) as Hv.
    destruct (glulx_random b st) as [v st']. cbn [fst snd] in Hwf', Hv.
    destruct (IH st' Hwf') as (IHwf & IHall & IHlen).
    destruct (run_calls b cs st') as [vs st'']. cbn [fst snd] in *.
    split; [exact IHwf |]. split.
    + apply Forall_cons. split; assumption.
    + rewrite filter_cons_True by reflexivity. cbn [length].
      rewrite IHlen. reflexivity.
Qed.

(** The mode after a sequence of calls is decided by the last
    [glulx_setrandom] in it: Native if its seed was 0, Deterministic
    otherwise; [glulx_random] calls never change it. *)
Theorem run_calls_mode b cs st :
  (forallb is_call_random cs = true ->
     rand_use_native (snd (run_calls b cs st)) = rand_use_native st)
  /\ (forall cs1 seed cs2,
        cs = cs1 ++ call_setrandom seed :: cs2 ->
        forallb is_call_random cs2 = true ->
        rand_use_native (snd (run_calls b cs st)) = (seed =? 0)).
Proof.
  split; [apply run_calls_only_random_flag |].
  intros cs1 seed cs2 -> Hr.
  rewrite run_calls_app. cbn [snd run_calls].
  rewrite run_calls_only_random_flag by exact Hr.
  apply glulx_setrandom_flag.
Qed.

(** Once [glulx_setrandom] has been called with a nonzero seed, or
    with any seed in a build whose native source is the xoshiro
    generator, the table is never all-zero again, whatever calls
    follow. *)
Theorem run_calls_never_zero b seed cs st :
  wf_state st -> seed <> 0 \/ native_is_xoshiro b = true ->
  mt_table (snd (run_calls b (call_setrandom seed :: cs) st))
    <> [0; 0; 0; 0].
Proof.
  intros Hwf Hc. cbn [run_calls]. apply run_calls_nonzero.
  - apply glulx_setrandom_wf, Hwf.
  - apply glulx_setrandom_nonzero_table; [exact Hwf |].
    destruct Hc as [Hc | Hc]; [left | right; left]; exact Hc.
Qed.

(** In the builds whose native source is the xoshiro generator,
    Native mode is Deterministic mode seeded with the clock: after
    [glulx_setrandom 0] the outputs are those of the seed
    [time(NULL)] truncated to 32 bits, and when that value is nonzero
    they are the outputs [glulx_setrandom] of that value gives. *)
Theorem native_xoshiro_is_clock_seeded b st (n : nat) :
  wf_state st -> native_is_xoshiro b = true ->
  fst (glulx_random_n b n (glulx_setrandom b 0 st)) =
    deterministic_outputs (wrap32 (time (world st))) n
  /\ (wrap32 (time (world st)) <> 0 ->
        fst (glulx_random_n b n (glulx_setrandom b 0 st)) =
          fst (glulx_random_n b n
                 (glulx_setrandom b (wrap32 (time (world st))) st))).
Proof.
  intros Hwf Hx.
  assert (E : fst (glulx_random_n b n (glulx_setrandom b 0 st)) =
              deterministic_outputs (wrap32 (time (world st))) n).
  { rewrite glulx_setrandom_zero_xoshiro by (apply Hwf || exact Hx).
    rewrite glulx_random_n_xoshiro by exact Hx.
    rewrite mt_random_n_slots by apply SeedExpander_wf. reflexivity. }
  split; [exact E |]. intros Hne.
  rewrite E, glulx_random_n_seeded by (apply Hwf || exact Hne).
  reflexivity.
Qed.

(** In those builds the table [glulx_setrandom 0] leaves depends on
    the clock modulo 2^32 and on nothing else: two clock values give
    the same table exactly when they are congruent modulo 2^32. *)
Theorem native_reseed_clock_mod b (st1 st2 : State W) :
  wf_state st1 -> wf_state st2 -> native_is_xoshiro b = true ->
  (mt_table (glulx_setrandom b 0 st1) = mt_table (glulx_setrandom b 0 st2)
   <-> wrap32 (time (world st1)) = wrap32 (time (world st2))).
Proof.
  intros Hwf1 Hwf2 Hx.
  rewrite !glulx_setrandom_zero_xoshiro by (apply Hwf1 || apply Hwf2 || exact Hx).
  cbn [mt_table]. split.
  - intros E. apply SeedExpander_slot0_inj; try apply wrap32_u32.
    rewrite E. reflexivity.
  - intros ->. reflexivity.
Qed.

End CallProperties.

(** Deterministic mode never touches the host: [glulx_setrandom] with
    a nonzero seed followed by any number of [glulx_random] calls
    leaves the world as it was, and the outputs and the final state are
    the same under any two hosts and builds. *)
Theorem deterministic_path_host_independent {W} (H1 H2 : Host W)
    (b1 b2 : Build) (S : Z) (st : State W) (n : nat) :
  wf_state st -> S <> 0 ->
  glulx_random_n (HW := H1) b1 n (glulx_setrandom (HW := H1) b1 S st) =
    glulx_random_n (HW := H2) b2 n (glulx_setrandom (HW := H2) b2 S st)
  /\ world (snd (glulx_random_n (HW := H1) b1 n
                   (glulx_setrandom (HW := H1) b1 S st))) = world st.
Proof.
  intros Hwf HS.
  rewrite !glulx_setrandom_nonzero by (apply Hwf || exact HS).
  rewrite !glulx_random_n_deterministic by reflexivity.
  split; [reflexivity |].
  rewrite mt_random_n_slots by apply SeedExpander_wf. reflexivity.
Qed.

(** ** The further properties evaluated on the concrete host *)

Lemma run_calls_invariant_witness :
  wf_state
    (snd (run_calls OS_UNIX
            [call_random; call_setrandom 5; call_random] (initial_state 7)))
  /\ length
       (fst (run_calls OS_UNIX
               [call_random; call_setrandom 5; call_random] (initial_state 7)))
     = 2%nat.
Proof.
  destruct (run_calls_invariant OS_UNIX
              [call_random; call_setrandom 5; call_random] (initial_state 7))
    as (Hwf & _ & Hlen); [apply wf_initial_state |].
  split; [exact Hwf | rewrite Hlen; reflexivity].
Defined.

Lemma run_calls_mode_witness :
  rand_use_native
    (snd (run_calls OS_STDC
            [call_setrandom 0; call_random; call_setrandom 9; call_random]
            (initial_state 1))) = false
  /\ rand_use_native
       (snd (run_calls OS_STDC [call_random; call_random] (initial_state 1)))
     = true.
Proof.
  split.
  - destruct (run_calls_mode OS_STDC
                [call_setrandom 0; call_random; call_setrandom 9; call_random]
                (initial_state 1)) as [_ H].
    apply (H [call_setrandom 0; call_random] 9 [call_random]); reflexivity.
  - destruct (run_calls_mode OS_STDC [call_random; call_random]
                (initial_state 1)) as [H _].
    apply H. reflexivity.
Defined.

Lemma run_calls_never_zero_witness :
  mt_table
    (snd (run_calls OS_UNIX
            [call_setrandom 5; call_random; call_setrandom 0; call_random]
            (initial_state 7)))
    <> [0; 0; 0; 0].
Proof.
  apply (run_calls_never_zero OS_UNIX 5
           [call_random; call_setrandom 0; call_random] (initial_state 7)).
  - apply wf_initial_state.
  - left. lia.
Defined.

Lemma native_xoshiro_is_clock_seeded_witness :
  fst (glulx_random_n OS_NONE 3 (glulx_setrandom OS_NONE 0 (initial_state 1)))
    = [1144403687; 1290228702; 3651710282]
  /\ fst (glulx_random_n OS_NONE 3 (glulx_setrandom OS_NONE 0 (initial_state 1)))
     = fst (glulx_random_n OS_NONE 3
              (glulx_setrandom OS_NONE 1 (initial_state 1))).
Proof.
  destruct (native_xoshiro_is_clock_seeded OS_NONE (initial_state 1) 3)
    as [E1 E2]; [apply wf_initial_state | reflexivity |].
  split.
  - rewrite E1. reflexivity.
  - apply E2. discriminate.
Defined.

Lemma native_reseed_clock_mod_witness :
  mt_table (glulx_setrandom OS_STDC 0 (initial_state 1)) =
    mt_table (glulx_setrandom OS_STDC 0 (initial_state 4294967297)).
Proof.
  apply (native_reseed_clock_mod OS_STDC
           (initial_state 1) (initial_state 4294967297));
    try apply wf_initial_state; reflexivity.
Defined.

Lemma deterministic_path_host_independent_witness :
  glulx_random_n (HW := demo_host) OS_UNIX 3
    (glulx_setrandom (HW := demo_host) OS_UNIX 12345 (initial_state 7)) =
  glulx_random_n
    (HW := Build_Host Z (fun _ => 0) (fun _ w => w)
             (fun w => (0, w)) (fun w => (0, w)))
    OS_WINDOWS_MSC 3
    (glulx_setrandom
       (HW := Build_Host Z (fun _ => 0) (fun _ w => w)
                (fun w => (0, w)) (fun w => (0, w)))
       OS_WINDOWS_MSC 12345 (initial_state 7)).
Proof.
  apply (deterministic_path_host_independent demo_host
           (Build_Host Z (fun _ => 0) (fun _ w => w)
              (fun w => (0, w)) (fun w => (0, w)))
           OS_UNIX OS_WINDOWS_MSC 12345 (initial_state 7) 3).
  - apply wf_initial_state.
  - lia.
Defined.

(** ** Linearity of the state update *)

Lemma rotl_lxor (x y k : Z) :
  is_u32 x -> is_u32 y -> 0 < k < 32 ->
  rotl (Z.lxor x y) k = Z.lxor (rotl x k) (rotl y k).
Proof.
  intros Hx Hy Hk. apply Z.bits_inj'. intros i Hi.
  assert (Hxy : is_u32 (Z.lxor x y)) by (apply lxor_u32; assumption).
  rewrite Z.lxor_spec.
  destruct (Z.lt_ge_cases i 32) as [Hlt | Hge].
  - rewrite !rotl_testbit by (assumption || lia).
    apply Z.lxor_spec.
  - rewrite !(u32_high_bits (rotl _ k) i) by (try apply rotl_u32; auto; lia).
    reflexivity.
Qed.

(** The state update of [mt_random] is linear over exclusive or: the
    successor of the slot-wise xor of two tables is the slot-wise xor
    of their successors. *)
Theorem mt_random_state_linear {W} (st1 st2 st12 : State W) :
  wf_state st1 -> wf_state st2 ->
  mt_table st12 = zip_with Z.lxor (mt_table st1) (mt_table st2) ->
  mt_table (snd (mt_random st12)) =
    zip_with Z.lxor (mt_table (snd (mt_random st1)))
      (mt_table (snd (mt_random st2))).
Proof.
  intros Hwf1 Hwf2 E.
  destruct (wf_table_inv _ Hwf1)
    as (a0 & a1 & a2 & a3 & E1 & Ha0 & Ha1 & Ha2 & Ha3).
  destruct (wf_table_inv _ Hwf2)
    as (b0 & b1 & b2 & b3 & E2 & Hb0 & Hb1 & Hb2 & Hb3).
  unfold mt_random. cbn [snd set_mt_table mt_table].
  rewrite E, E1, E2.
  change (zip_with Z.lxor [a0; a1; a2; a3] [b0; b1; b2; b3])
    with [Z.lxor a0 b0; Z.lxor a1 b1; Z.lxor a2 b2; Z.lxor a3 b3].
  cbn -[Z.lxor Z.shiftl wrap32 rotl].
  rewrite shl_wrap_lxor.
  replace (Z.lxor (Z.lxor a3 b3) (Z.lxor a1 b1))
    with (Z.lxor (Z.lxor a3 a1) (Z.lxor b3 b1)) by xor_bits.
  rewrite rotl_lxor by (auto with u32; lia).
  repeat (apply (f_equal2 cons); [try reflexivity; xor_bits |]).
  reflexivity.
Qed.

Lemma mt_random_state_linear_witness :
  mt_table (snd (mt_random (mkState [1; 2; 3; 4] false 0))) =
    zip_with Z.lxor
      (mt_table (snd (mt_random (mkState [1; 0; 3; 0] false 0))))
      (mt_table (snd (mt_random (mkState [0; 2; 0; 4] false 0)))).
Proof.
  apply (mt_random_state_linear
           (mkState [1; 0; 3; 0] false 0) (mkState [0; 2; 0; 4] false 0)
           (mkState [1; 2; 3; 4] false 0)).
  - apply wf_table_intro; unfold is_u32; lia.
  - apply wf_table_intro; unfold is_u32; lia.
  - reflexivity.
Defined.

(** ** Start-up, and where the clock is read *)




Section Startup.
Context {W : Type} `{HW : Host W}.


End Startup.

